(** * try_operator.hpp: the [try()] error-propagation macro

    A shallow embedding of [namespace tryop]: the [error_traits] registry
    with its three partial specialisations (optional-like, error code-like,
    pair-like), the capability predicates [is_detailed_error_v],
    [is_error_with_value_v] and [is_error_v], the [error_proxy] conversion,
    the conversion that a [return] of the proxy selects, and the [try()]
    statement-expression macro.

    Template instantiation is modelled over a universe [ty] of C++ types;
    what the compiler refuses ([static_assert], [enable_if], a call with no
    viable overload) is a [Rejected] result of type [compile].  Run time is
    modelled by state passing: a function body is a state transformer whose
    outcome is a value for the surrounding expression, an early [return],
    or undefined behaviour. *)

From Stdlib Require Import ZArith Bool String List Eqdep_dec.
Import ListNotations.
Open Scope Z_scope.

(** ** The universe of types *)

(** The class templates that can stand for [Pair] in
    [template <template <class...> class Pair, class Error, class T>]. *)
Inductive pair_template : Type := std_pair | std_tuple.

Inductive ty : Type :=
| t_int
| t_string
| t_error_code
| t_error_condition
| t_optional (T : ty)
| t_pair (Pair : pair_template) (T1 T2 : ty).

(** [std::error_category] objects are compared by address; a category is
    one of the two standard singletons or a user-defined one. *)
Inductive error_category : Type :=
| generic_category
| system_category
| user_category (id : nat).

(** [std::error_code]: an [int] and a category. *)
Record error_code : Type := mk_error_code {
  ec_value : Z;
  ec_category : error_category
}.

(** [std::error_condition]: same layout, a distinct type. *)
Record error_condition : Type := mk_error_condition {
  econd_value : Z;
  econd_category : error_category
}.

(** Values.  [int] is carried by [Z]: the header performs no arithmetic on
    it, it only compares an error value with zero. *)
Fixpoint val (T : ty) : Type :=
  match T with
  | t_int => Z
  | t_string => string
  | t_error_code => error_code
  | t_error_condition => error_condition
  | t_optional A => option (val A)
  | t_pair _ A B => (val A * val B)%type
  end.

(** Value-initialisation [T{}]. *)
Fixpoint value_init (T : ty) : val T :=
  match T with
  | t_int => 0
  | t_string => EmptyString
  | t_error_code => mk_error_code 0 system_category
  | t_error_condition => mk_error_condition 0 generic_category
  | t_optional A => None
  | t_pair _ A B => (value_init A, value_init B)
  end.

Definition pair_template_eq_dec (p q : pair_template) : {p = q} + {p <> q}.
Proof. decide equality. Defined.

Definition ty_eq_dec (a b : ty) : {a = b} + {a <> b}.
Proof. decide equality; apply pair_template_eq_dec. Defined.

(** ** Compile time and undefined behaviour *)

(** Why a template instantiation is refused. *)
Inductive rejection : Type :=
| incomplete_error_traits            (* line 22: no specialisation enabled *)
| static_assert_is_error_v           (* lines 71 and 109 *)
| enable_if_is_error_v_Dst           (* line 74: no conversion to Dst *)
| static_assert_is_detailed_error_v  (* line 77 *)
| no_matching_function.              (* lines 78, 79, 82, 96: no such member call *)

Inductive compile (A : Type) : Type :=
| Accepted (a : A)
| Rejected (why : rejection).
Arguments Accepted {A} a.
Arguments Rejected {A} why.

(** The result of an operation with a precondition, such as [*opt]. *)
Inductive undefined_or (A : Type) : Type :=
| Defined_ (a : A)
| Undefined_.
Arguments Defined_ {A} a.
Arguments Undefined_ {A}.

(** ** error_traits *)

(** [make_error] is declared either without parameter or with one
    [error_type&&] parameter. *)
Inductive make_error_fn (T : ty) : Type :=
| make_error_nullary (f : val T)
| make_error_unary (E : ty) (f : val E -> val T).

(** One specialisation of [error_traits<T>]: [indicates_error] and
    [make_error] are required, [extract_value] and [extract_error] are
    the optional members. *)
Record traits (T : ty) : Type := mk_traits {
  indicates_error : val T -> bool;
  make_error : make_error_fn T;
  extract_value : option { V : ty & val T -> undefined_or (val V) };
  extract_error : option { E : ty & val T -> val E }
}.
Arguments indicates_error {T} t _.
Arguments make_error {T} t.
Arguments extract_value {T} t.
Arguments extract_error {T} t.

(** *** optional-like error_traits *)

Definition has_optional_semantics_v (T : ty) : bool :=
  match T with
  | t_optional _ => true
  | _ => false
  end.

Module optional_like.
Section Members.
Variable A : ty.

(** [static_cast<bool>(opt)] *)
Definition has_value (opt : val (t_optional A)) : bool :=
  match opt with Some _ => true | None => false end.

Definition indicates_error (opt : val (t_optional A)) : bool :=
  negb (has_value opt).

Definition make_error : val (t_optional A) := None.

(** [std::move( *opt )]: undefined on an empty optional. *)
Definition extract_value (opt : val (t_optional A)) : undefined_or (val A) :=
  match opt with
  | Some x => Defined_ x
  | None => Undefined_
  end.

Definition error_traits : traits (t_optional A) :=
  mk_traits (t_optional A)
    indicates_error
    (make_error_nullary (t_optional A) make_error)
    (Some (existT _ A extract_value))
    None.
End Members.
End optional_like.

(** *** error code-like error_traits *)

(** The overload set of the free function [indicates_error], looked up
    by argument type: [std::error_code] and [std::error_condition]. *)
Definition free_indicates_error (T : ty) : option (val T -> bool) :=
  match T with
  | t_error_code => Some (fun ec : error_code => negb (ec_value ec =? 0))
  | t_error_condition => Some (fun ec : error_condition => negb (econd_value ec =? 0))
  | _ => None
  end.

Definition has_indicates_error_v (T : ty) : bool :=
  match free_indicates_error T with Some _ => true | None => false end.

(** [detail::call_indicates_error<T>]: instantiates only where the free
    function exists. *)
Definition call_indicates_error (T : ty) : option (val T -> bool) :=
  free_indicates_error T.

Module error_code_like.
Section Members.
Variable T : ty.
Variable call : val T -> bool.

Definition indicates_error (err : val T) : bool := call err.
Definition make_error (err : val T) : val T := err.
Definition extract_error (err : val T) : val T := err.

Definition error_traits : traits T :=
  mk_traits T
    indicates_error
    (make_error_unary T T make_error)
    None
    (Some (existT _ T extract_error)).
End Members.
End error_code_like.

(** *** pair-like error_traits *)

(** [std::get<0>] and [std::get<1>] exist for both templates at two
    arguments. *)
Definition is_pair_v (T : ty) : bool :=
  match T with
  | t_pair _ _ _ => true
  | _ => false
  end.

Module pair_like.
Section Members.
Variable Pair : pair_template.
Variables T Error : ty.
Variable call : val Error -> bool.

Definition indicates_error (v : val (t_pair Pair T Error)) : bool :=
  call (snd v).

Definition make_error (err : val Error) : val (t_pair Pair T Error) :=
  let v := value_init (t_pair Pair T Error) in
  (fst v, err).

Definition extract_value (v : val (t_pair Pair T Error)) : val T := fst v.

Definition extract_error (v : val (t_pair Pair T Error)) : val Error := snd v.

Definition error_traits : traits (t_pair Pair T Error) :=
  mk_traits (t_pair Pair T Error)
    indicates_error
    (make_error_unary (t_pair Pair T Error) Error make_error)
    (Some (existT _ T (fun v => Defined_ (extract_value v))))
    (Some (existT _ Error extract_error)).
End Members.
End pair_like.

(** *** The registry *)

(** A type [From] is accepted where a parameter [To&&] is declared.
    Within the universe [ty] the parameter types that occur are
    [std::error_code] and [std::error_condition] (see
    [unary_make_error_param]); no type of [ty] converts to either except
    itself, and the two do not convert to each other, so the test is type
    equality.  Types left out of [ty] can convert: [std::errc] is
    accepted where [std::error_condition&&] is declared. *)
Definition convertible (From To : ty) : bool :=
  if ty_eq_dec From To then true else false.

(** The detection lambda of [is_detailed_error_v], on the result of the
    lookup of [error_traits<T>]: [indicates_error(x)] and
    [make_error(extract_error(std::move(x)))] are well-formed. *)
Definition detailed_error {T : ty} (o : option (traits T)) : bool :=
  match o with
  | Some tr =>
      match extract_error tr, make_error tr with
      | Some (existT _ E _), make_error_unary _ E' _ => convertible E E'
      | _, _ => false
      end
  | None => false
  end.

(** The detection lambda of [is_error_with_value_v]: [indicates_error(x)],
    the name [make_error] and [extract_value(std::move(x))] are
    well-formed. *)
Definition error_with_value {T : ty} (o : option (traits T)) : bool :=
  match o with
  | Some tr =>
      match extract_value tr with
      | Some _ => true
      | None => false
      end
  | None => false
  end.

(** Lookup of [error_traits<T>]: the primary template is only declared,
    so a type that enables no partial specialisation has no traits.  The
    [enable_if] conditions are tested in turn; [error_traits_unambiguous]
    below shows that at most one of them holds. *)
Fixpoint error_traits (T : ty) : option (traits T) :=
  match free_indicates_error T with
  | Some call => Some (error_code_like.error_traits T call)
  | None =>
      match T with
      | t_optional A => Some (optional_like.error_traits A)
      | t_pair Pair A E =>
          if is_pair_v (t_pair Pair A E)
             && detailed_error (error_traits E)
             && negb (error_with_value (error_traits E))
          then
            match call_indicates_error E with
            | Some call => Some (pair_like.error_traits Pair A E call)
            | None => None
            end
          else None
      | _ => None
      end
  end.

(** ** The capability classifier *)

Definition is_detailed_error_v (T : ty) : bool :=
  detailed_error (error_traits T).

Definition is_error_with_value_v (T : ty) : bool :=
  error_with_value (error_traits T).

Definition is_error_v (T : ty) : bool :=
  is_detailed_error_v T || is_error_with_value_v T.

(** The [enable_if] condition of the pair-like specialisation. *)
Definition pair_like_enabled (T : ty) : bool :=
  match T with
  | t_pair _ _ E =>
      is_pair_v T && is_detailed_error_v E && negb (is_error_with_value_v E)
  | _ => false
  end.

(** ** Instantiation *)

Definition compile_bind {A B : Type} (c : compile A) (k : A -> compile B) : compile B :=
  match c with
  | Accepted a => k a
  | Rejected why => Rejected why
  end.

Declare Scope compile_scope.
Delimit Scope compile_scope with compile.
Notation "x <-- c ;; k" := (compile_bind c (fun x => k))
  (at level 61, c at next level, right associativity) : compile_scope.
Notation "'static_assert' b 'else' why ;; k" :=
  (if b then k else Rejected why)
  (at level 61, b at next level, why at next level, right associativity) : compile_scope.

(** Naming a member of [error_traits<T>]. *)
Definition instantiate_traits (T : ty) : compile (traits T) :=
  match error_traits T with
  | Some tr => Accepted tr
  | None => Rejected incomplete_error_traits
  end.

(** ** error_proxy *)

(** [error_proxy<Src>] holds [Src&& value]; the referenced object is the
    local [_value_] of the macro, alive until the conversion is done. *)
Record error_proxy (Src : ty) : Type := mk_error_proxy { value : val Src }.
Arguments value {Src} e.

(** The constructor, with its [static_assert(is_error_v<Src>)]. *)
Definition error_proxy_ctor (Src : ty) : compile (val Src -> error_proxy Src) :=
  (static_assert is_error_v Src else static_assert_is_error_v ;;
   Accepted (mk_error_proxy Src))%compile.

(** An rvalue of type [E] passed where [E'&&] is declared and [E = E']. *)
Definition pass {E E' : ty} (same : E = E') (x : val E) : val E' :=
  eq_rect E val x E' same.

(** [error_proxy<Src>::operator Dst() const]. *)
Definition operator_Dst (Src Dst : ty) : compile (error_proxy Src -> val Dst) :=
  (static_assert is_error_v Dst else enable_if_is_error_v_Dst ;;
   if is_detailed_error_v Dst then
     static_assert is_detailed_error_v Src else static_assert_is_detailed_error_v ;;
     src <-- instantiate_traits Src ;;
     dst <-- instantiate_traits Dst ;;
     match extract_error src, make_error dst with
     | Some (existT _ E extract), make_error_unary _ E' make =>
         match ty_eq_dec E E' with
         | left same =>
             Accepted (fun proxy =>
                         let error := extract (value proxy) in
                         make (pass same error))
         | right _ => Rejected no_matching_function
         end
     | _, _ => Rejected no_matching_function
     end
   else
     dst <-- instantiate_traits Dst ;;
     match make_error dst with
     | make_error_nullary _ make => Accepted (fun _ => make)
     | make_error_unary _ _ _ => Rejected no_matching_function
     end)%compile.

(** [return error_proxy{...};] in a function that returns [Dst]: the
    copy-initialisation of the result from the proxy.  The candidates are
    the conversion function [operator Dst() const] and the converting
    constructors of [Dst].  Error codes, pairs and tuples have no
    constructor that takes the proxy.  [std::optional<A>] has
    [template <class U = A> optional(U&&)], enabled when
    [is_constructible_v<A, U>], which for [U = error_proxy<Src>] is
    [is_error_v<A>] (the [enable_if] of [operator A]); it binds the proxy
    to [error_proxy&&] where the conversion function binds it to
    [const error_proxy&], so it is the better candidate.  It holds an [A]
    direct-initialised from the proxy, for which the same candidates
    compete.  The body of a candidate that is not selected is not
    instantiated. *)
Fixpoint return_error_proxy (Src Dst : ty) : compile (error_proxy Src -> val Dst) :=
  match Dst return compile (error_proxy Src -> val Dst) with
  | t_optional A =>
      if is_error_v A
      then (held <-- return_error_proxy Src A ;;
            Accepted (fun proxy => Some (held proxy)))%compile
      else operator_Dst Src (t_optional A)
  | Dst' => operator_Dst Src Dst'
  end.

(** The destinations whose converting constructor takes the proxy: an
    optional over an error type. *)
Definition holds_error_type (Dst : ty) : bool :=
  match Dst with
  | t_optional A => is_error_v A
  | _ => false
  end.

(** ** Function bodies *)

(** What evaluating an expression inside a function body comes to: a
    value for the surrounding expression, a [return] statement that ends
    the enclosing function with result [r], or undefined behaviour. *)
Inductive outcome (R A : Type) : Type :=
| Yield (a : A)
| Return (r : R)
| Undefined.
Arguments Yield {R A} a.
Arguments Return {R A} r.
Arguments Undefined {R A}.

(** An expression of a function with result type [R], acting on the
    program state [St]. *)
Definition body (St R A : Type) : Type := St -> outcome R A * St.

Definition yield {St R A : Type} (a : A) : body St R A :=
  fun s => (Yield a, s).

Definition return_ {St R A : Type} (r : R) : body St R A :=
  fun s => (Return r, s).

Definition lift {St R A : Type} (u : undefined_or A) : body St R A :=
  fun s =>
    match u with
    | Defined_ a => (Yield a, s)
    | Undefined_ => (Undefined, s)
    end.

(** Sequencing: what follows runs only after a [Yield]. *)
Definition bind {St R A B : Type} (m : body St R A) (k : A -> body St R B)
  : body St R B :=
  fun s =>
    match m s with
    | (Yield a, s') => k a s'
    | (Return r, s') => (Return r, s')
    | (Undefined, s') => (Undefined, s')
    end.

Declare Scope body_scope.
Delimit Scope body_scope with body.
Notation "x <- m ;; k" := (bind m (fun x => k))
  (at level 61, m at next level, right associativity) : body_scope.

(** Calling a function whose body is [f]: the result is the value of the
    [return] statement that ended it, early or last. *)
Definition call_function {St R : Type} (f : body St R R) (s : St)
  : undefined_or R * St :=
  match f s with
  | (Yield r, s') => (Defined_ r, s')
  | (Return r, s') => (Defined_ r, s')
  | (Undefined, s') => (Undefined_, s')
  end.

(** ** The try() macro *)

(** The value of a call of [maybe_extract_value], declared [auto]: [void]
    or a value of the type [extract_value] returns. *)
Inductive auto_value : Type :=
| void_value
| typed_value (V : ty) (x : val V).

Definition maybe_extract_value (T : ty) : compile (val T -> undefined_or auto_value) :=
  (if is_error_with_value_v T then
     tr <-- instantiate_traits T ;;
     match extract_value tr with
     | Some (existT _ V extract) =>
         Accepted (fun value =>
                     match extract value with
                     | Defined_ x => Defined_ (typed_value V x)
                     | Undefined_ => Undefined_
                     end)
     | None => Rejected no_matching_function
     end
   else Accepted (fun _ => Defined_ void_value))%compile.

(** [try(expr)] used in a function that returns [Dst], with
    [decltype(_value_) = Src]. *)
Definition try_ {St : Type} (Src Dst : ty)
  : compile (body St (val Dst) (val Src) -> body St (val Dst) auto_value) :=
  (static_assert is_error_v Src else static_assert_is_error_v ;;
   tr <-- instantiate_traits Src ;;
   proxy <-- error_proxy_ctor Src ;;
   convert <-- return_error_proxy Src Dst ;;
   extract <-- maybe_extract_value Src ;;
   Accepted (fun expr =>
               (_value_ <- expr ;;
                if indicates_error tr _value_
                then return_ (convert (proxy _value_))
                else lift (extract _value_))%body))%compile.

(** [counted expr] is [expr] instrumented with a counter of its
    evaluations, kept beside the program state. *)
Definition counted {St R A : Type} (expr : body St R A) : body (nat * St) R A :=
  fun ns =>
    let (o, s') := expr (snd ns) in
    (o, (S (fst ns), s')).

(** ** Sample programs *)

(** Operands and continuations over a state that counts the statements
    executed so far. *)
Module sample.
Definition E : error_code := mk_error_code 5 generic_category.

Definition int_and_code : ty := t_pair std_tuple t_int t_error_code.
Definition string_and_code : ty := t_pair std_pair t_string t_error_code.

(** An inner call that returns [v]. *)
Definition inner {R : Type} (T : ty) (v : val T) : body nat R (val T) :=
  fun n => (Yield v, S n).

(** The statements after the macro: they ignore its value and return
    [r], a hundred steps later. *)
Definition rest {R : Type} (r : R) : auto_value -> body nat R R :=
  fun _ n => (Yield r, (n + 100)%nat).

(** The free function on [std::error_code]. *)
Definition code_set (ec : error_code) : bool := negb (ec_value ec =? 0).

(** The specialisations selected for these types. *)
Definition code_traits : traits t_error_code :=
  error_code_like.error_traits t_error_code code_set.
Definition int_and_code_traits : traits int_and_code :=
  pair_like.error_traits std_tuple t_int t_error_code code_set.
Definition string_and_code_traits : traits string_and_code :=
  pair_like.error_traits std_pair t_string t_error_code code_set.

(** An outer function that returns [Dst]: it applies [try()] to an inner
    call that returned [v], then returns [r]; called in state [0]. *)
Definition outer (Src Dst : ty) (v : val Src) (r : val Dst)
  : compile (undefined_or (val Dst) * nat) :=
  (macro <-- try_ Src Dst ;;
   Accepted (call_function (x <- macro (inner Src v) ;; rest r x)%body 0%nat))%compile.
End sample.

(** ** Uses of the macro *)


(** The body [try(e1); ...; try(en); return last;]. *)
Fixpoint try_each {St R A : Type} (macro : body St R A -> body St R auto_value)
         (exprs : list (body St R A)) (last : body St R R) : body St R R :=
  match exprs with
  | [] => last
  | expr :: exprs' => (_ <- macro expr ;; try_each macro exprs' last)%body
  end.

(** [all_succeed tr exprs s s']: evaluated one after the other from state
    [s], the operands [exprs] all give values that indicate success, and
    leave state [s']. *)
Inductive all_succeed {St R : Type} {T : ty} (tr : traits T)
  : list (body St R (val T)) -> St -> St -> Prop :=
| all_succeed_nil (s : St) : all_succeed tr [] s s
| all_succeed_cons (expr : body St R (val T)) (exprs : list (body St R (val T)))
                   (s s1 s2 : St) (v : val T) :
    expr s = (Yield v, s1) ->
    indicates_error tr v = false ->
    all_succeed tr exprs s1 s2 ->
    all_succeed tr (expr :: exprs) s s2.

(** * Properties *)

(** ** The registered shapes *)

(** The specialisations that [error_traits] can select. *)
Inductive registered : forall T : ty, traits T -> Prop :=
| registered_optional_like (A : ty) :
    registered (t_optional A) (optional_like.error_traits A)
| registered_error_code_like (T : ty) (call : val T -> bool) :
    free_indicates_error T = Some call ->
    registered T (error_code_like.error_traits T call)
| registered_pair_like (Pair : pair_template) (A E : ty) (call : val E -> bool) :
    free_indicates_error E = Some call ->
    registered (t_pair Pair A E) (pair_like.error_traits Pair A E call).

Lemma error_traits_registered (T : ty) (tr : traits T) :
  error_traits T = Some tr -> registered T tr.
Proof.
  destruct T; simpl; intros H; try discriminate;
    try (injection H as <-; constructor; reflexivity).
  destruct (detailed_error (error_traits T2) && negb (error_with_value (error_traits T2)));
    try discriminate.
  unfold call_indicates_error in H.
  destruct (free_indicates_error T2) as [call|] eqn:Hcall; try discriminate.
  injection H as <-. constructor. exact Hcall.
Qed.

Lemma existT_ty_inj (P : ty -> Type) (T : ty) (x y : P T) :
  existT P T x = existT P T y -> x = y.
Proof. apply inj_pair2_eq_dec. exact ty_eq_dec. Qed.

Lemma Some_existT_ty_inj (P : ty -> Type) (T : ty) (x y : P T) :
  Some (existT P T x) = Some (existT P T y) -> x = y.
Proof. intros H. apply existT_ty_inj. congruence. Qed.

(** A type with the free function [indicates_error] is one of the two
    standard error types. *)
Lemma free_indicates_error_types (T : ty) (call : val T -> bool) :
  free_indicates_error T = Some call -> T = t_error_code \/ T = t_error_condition.
Proof. destruct T; simpl; intros H; try discriminate; auto. Qed.

(** The parameter of a unary [make_error] is an error code type, which
    is what [convertible] relies on. *)
Lemma unary_make_error_param (T : ty) (tr : traits T) (E : ty) (make : val E -> val T) :
  error_traits T = Some tr ->
  make_error tr = make_error_unary T E make ->
  E = t_error_code \/ E = t_error_condition.
Proof.
  intros H Hm. destruct (error_traits_registered T tr H) as [A|T call Hc|P A E' call Hc];
    simpl in Hm; try discriminate; injection Hm as -> _;
    eapply free_indicates_error_types; eassumption.
Qed.

(** At most one partial specialisation is enabled for a type, and
    [error_traits] is defined exactly when one is. *)
Lemma error_traits_unambiguous (T : ty) :
  (has_optional_semantics_v T && has_indicates_error_v T = false) /\
  (has_optional_semantics_v T && pair_like_enabled T = false) /\
  (has_indicates_error_v T && pair_like_enabled T = false) /\
  (match error_traits T with Some _ => true | None => false end =
   has_optional_semantics_v T || has_indicates_error_v T || pair_like_enabled T).
Proof.
  destruct T; simpl; try (repeat split; reflexivity).
  unfold is_detailed_error_v, is_error_with_value_v, call_indicates_error.
  repeat split.
  destruct (detailed_error (error_traits T2)) eqn:Hd; simpl; [|reflexivity].
  destruct (error_with_value (error_traits T2)) eqn:Hv; simpl; [reflexivity|].
  destruct (error_traits T2) as [tr|] eqn:Ht; [|discriminate].
  destruct (error_traits_registered T2 tr Ht) as [A|T call Hc|P A E' call Hc];
    simpl in Hd, Hv; try discriminate.
  rewrite Hc. reflexivity.
Qed.

(** The header's own assertions (lines 147-148, 190-191, 229-230). *)
Example static_asserts_of_the_header :
  is_error_with_value_v (t_optional t_int) = true /\
  is_detailed_error_v (t_optional t_int) = false /\
  is_detailed_error_v t_error_code = true /\
  is_error_with_value_v t_error_code = false /\
  is_detailed_error_v (t_pair std_tuple t_int t_error_code) = true /\
  is_error_with_value_v (t_pair std_tuple t_int t_error_code) = true.
Proof. repeat split. Qed.

(** Types outside the protocol: a plain [int], and a pair whose second
    component is not an error code-like type. *)
Example not_error_types :
  is_error_v t_int = false /\
  is_error_v (t_pair std_pair t_int t_string) = false /\
  is_error_v (t_pair std_pair t_int (t_optional t_int)) = false /\
  is_error_v (t_pair std_tuple t_int sample.int_and_code) = false.
Proof. repeat split. Qed.

(** The classifier in terms of the selected specialisation. *)
Lemma classifier_of_registered (T : ty) (tr : traits T) :
  error_traits T = Some tr ->
  is_detailed_error_v T = (match extract_error tr with Some _ => true | None => false end) /\
  is_error_with_value_v T = (match extract_value tr with Some _ => true | None => false end) /\
  is_error_v T = true.
Proof.
  intros Ht. unfold is_error_v, is_detailed_error_v, is_error_with_value_v.
  rewrite Ht.
  destruct (error_traits_registered T tr Ht) as [A|T call Hc|P A E call Hc]; simpl;
    unfold convertible; try destruct (ty_eq_dec _ _); try congruence; repeat split.
Qed.

(** ** What an accepted instantiation is made of *)

Lemma instantiate_traits_accepted (T : ty) (tr : traits T) :
  error_traits T = Some tr -> instantiate_traits T = Accepted tr.
Proof. unfold instantiate_traits. intros ->. reflexivity. Qed.

Lemma is_detailed_error_v_is_error_v (T : ty) :
  is_detailed_error_v T = true -> is_error_v T = true.
Proof. unfold is_error_v. intros ->. reflexivity. Qed.

(** Where no converting constructor competes, the [return] statement
    calls [operator Dst]. *)
Lemma return_error_proxy_operator (Src Dst : ty) :
  holds_error_type Dst = false ->
  return_error_proxy Src Dst = operator_Dst Src Dst.
Proof.
  destruct Dst; simpl; try reflexivity. intros ->. reflexivity.
Qed.

Lemma detailed_holds_no_error_type (Dst : ty) :
  is_detailed_error_v Dst = true -> holds_error_type Dst = false.
Proof. destruct Dst; simpl; try reflexivity. discriminate. Qed.


Lemma try_accepted (St : Type) (Src Dst : ty)
      (macro : body St (val Dst) (val Src) -> body St (val Dst) auto_value) :
  try_ Src Dst = Accepted macro ->
  exists tr convert extract,
    error_traits Src = Some tr /\
    is_error_v Src = true /\
    return_error_proxy Src Dst = Accepted convert /\
    maybe_extract_value Src = Accepted extract /\
    macro = fun expr =>
              (_value_ <- expr ;;
               if indicates_error tr _value_
               then return_ (convert (mk_error_proxy Src _value_))
               else lift (extract _value_))%body.
Proof.
  unfold try_, error_proxy_ctor, instantiate_traits.
  destruct (is_error_v Src) eqn:He; [|discriminate].
  destruct (error_traits Src) as [tr|]; [|discriminate]. simpl.
  destruct (return_error_proxy Src Dst) as [convert|]; [|discriminate]. simpl.
  destruct (maybe_extract_value Src) as [extract|]; [|discriminate]. simpl.
  intros H. injection H as <-.
  exists tr, convert, extract. repeat split.
Qed.

(** The success branch of the macro never dereferences an empty optional. *)
Lemma maybe_extract_value_accepted (T : ty) (tr : traits T)
      (extract : val T -> undefined_or auto_value) :
  error_traits T = Some tr ->
  maybe_extract_value T = Accepted extract ->
  forall v : val T,
    indicates_error tr v = false ->
    match extract_value tr with
    | Some (existT _ V extract_value) =>
        is_error_with_value_v T = true /\
        exists x, extract_value v = Defined_ x /\ extract v = Defined_ (typed_value V x)
    | None =>
        is_error_with_value_v T = false /\ extract v = Defined_ void_value
    end.
Proof.
  intros Ht. unfold maybe_extract_value, is_error_with_value_v, instantiate_traits.
  rewrite Ht. simpl.
  destruct (error_traits_registered T tr Ht) as [A|T call Hc|P A E call Hc]; simpl;
    intros H v Hv; injection H as <-; split; try reflexivity.
  - destruct v as [x|]; [|discriminate]. exists x. split; reflexivity.
  - exists (fst v). split; reflexivity.
Qed.

(** ** The propagation construct *)



(** ** The conversion proxy *)

(** C2 (detail preserved).  When [operator Dst] is instantiated from a
    DetailedError source to a DetailedError destination, a failing source
    value [v] is converted to [Dst]'s [make_error] applied to [Src]'s
    [extract_error] of [v], and [Dst]'s [extract_error] reads the same
    payload back from the result. *)
Theorem proxy_preserves_detail :
  forall (Src Dst : ty) (src : traits Src) (dst : traits Dst)
         (convert : error_proxy Src -> val Dst),
    error_traits Src = Some src ->
    error_traits Dst = Some dst ->
    is_detailed_error_v Src = true ->
    is_detailed_error_v Dst = true ->
    operator_Dst Src Dst = Accepted convert ->
    exists (E : ty) (extract_S : val Src -> val E)
           (make_D : val E -> val Dst) (extract_D : val Dst -> val E),
      extract_error src = Some (existT _ E extract_S) /\
      make_error dst = make_error_unary Dst E make_D /\
      extract_error dst = Some (existT _ E extract_D) /\
      forall v : val Src,
        indicates_error src v = true ->
        convert (mk_error_proxy Src v) = make_D (extract_S v) /\
        extract_D (convert (mk_error_proxy Src v)) = extract_S v.
Proof.
  intros Src Dst src dst convert Hs Hd HS HD.
  unfold operator_Dst.
  rewrite (is_detailed_error_v_is_error_v Dst HD), HD, HS.
  rewrite (instantiate_traits_accepted Src src Hs),
          (instantiate_traits_accepted Dst dst Hd). simpl.
  destruct (extract_error src) as [[E extract_S]|]; [|discriminate].
  destruct (error_traits_registered Dst dst Hd) as [A|T call Hc|P A E' call Hc];
    simpl; try discriminate.
  - destruct (ty_eq_dec E T) as [same|]; [|discriminate]. subst E.
    intros H. injection H as <-.
    exists T, extract_S, (error_code_like.make_error T), (error_code_like.extract_error T).
    repeat split.
  - destruct (ty_eq_dec E E') as [same|]; [|discriminate]. subst E.
    intros H. injection H as <-.
    exists E', extract_S, (pair_like.make_error P A E'), (pair_like.extract_error P A E').
    repeat split.
Qed.

Lemma proxy_preserves_detail_witness :
  let Src := sample.string_and_code in
  let Dst := t_error_code in
  let convert : error_proxy Src -> val Dst := fun proxy => snd (value proxy) in
  let v : val Src := ("partial"%string, sample.E) in
  (error_traits Src = Some sample.string_and_code_traits /\
   error_traits Dst = Some sample.code_traits /\
   is_detailed_error_v Src = true /\
   is_detailed_error_v Dst = true /\
   operator_Dst Src Dst = Accepted convert /\
   indicates_error sample.string_and_code_traits v = true) /\
  convert (mk_error_proxy Src v) = sample.E.
Proof.
  intros Src Dst convert v.
  split; [repeat split|].
  destruct (proxy_preserves_detail Src Dst
              sample.string_and_code_traits sample.code_traits convert
              eq_refl eq_refl eq_refl eq_refl eq_refl)
    as (E & extract_S & make_D & extract_D & Hes & _ & Hed & H).
  destruct (H v eq_refl) as [_ H2].
  injection Hed as HE Hex. subst E.
  apply (existT_ty_inj (fun E => val Dst -> val E)) in Hex. subst extract_D.
  apply (Some_existT_ty_inj (fun E => val Src -> val E)) in Hes. subst extract_S.
  exact H2.
Defined.

(** C3, at the input where the code departs from it.  In a function
    that returns [std::optional<std::error_code>], [return error_proxy{E}]
    for a failing [std::error_code] [E] selects the converting constructor
    of the optional, not [operator Dst]: the result holds [E].  It is not
    the empty optional that [make_error()] returns, it differs for
    different payloads, and it indicates success. *)
Theorem proxy_into_optional_of_error_code :
  let Src := t_error_code in
  let Dst := t_optional t_error_code in
  let convert : error_proxy Src -> val Dst := fun proxy => Some (value proxy) in
  (is_detailed_error_v Src = true /\ is_detailed_error_v Dst = false /\
   indicates_error sample.code_traits sample.E = true) /\
  return_error_proxy Src Dst = Accepted convert /\
  convert (mk_error_proxy Src sample.E) = Some sample.E /\
  convert (mk_error_proxy Src sample.E) <> optional_like.make_error t_error_code /\
  convert (mk_error_proxy Src sample.E)
  <> convert (mk_error_proxy Src (mk_error_code 9 generic_category)) /\
  indicates_error (optional_like.error_traits t_error_code)
    (convert (mk_error_proxy Src sample.E)) = false /\
  sample.outer Src Dst sample.E None = Accepted (Defined_ (Some sample.E), 1%nat).
Proof.
  intros Src Dst convert.
  split; [repeat split|].
  split; [reflexivity|]. split; [reflexivity|].
  split; [discriminate|]. split; [discriminate|].
  split; reflexivity.
Qed.

(** X15.  The member function [operator Dst], called on a proxy: from a
    DetailedError source to a destination that is not DetailedError, the
    destination's [make_error] takes no payload and every source value is
    converted to that one value, whatever its payload. *)
Theorem proxy_discards_detail :
  forall (Src Dst : ty) (src : traits Src) (dst : traits Dst)
         (convert : error_proxy Src -> val Dst),
    error_traits Src = Some src ->
    error_traits Dst = Some dst ->
    is_detailed_error_v Src = true ->
    is_detailed_error_v Dst = false ->
    operator_Dst Src Dst = Accepted convert ->
    exists make_D : val Dst,
      make_error dst = make_error_nullary Dst make_D /\
      (forall v : val Src,
          indicates_error src v = true ->
          convert (mk_error_proxy Src v) = make_D) /\
      (forall v1 v2 : val Src,
          convert (mk_error_proxy Src v1) = convert (mk_error_proxy Src v2)).
Proof.
  intros Src Dst src dst convert _ Hd _ HD.
  unfold operator_Dst. rewrite HD.
  destruct (is_error_v Dst); [|discriminate].
  rewrite (instantiate_traits_accepted Dst dst Hd). simpl.
  destruct (make_error dst) as [make_D|E make_D]; [|discriminate].
  intros H. injection H as <-.
  exists make_D. repeat split.
Qed.

Lemma proxy_discards_detail_witness :
  let Src := sample.string_and_code in
  let Dst := t_optional t_string in
  let convert : error_proxy Src -> val Dst := fun _ => None in
  let v : val Src := ("partial"%string, sample.E) in
  (error_traits Src = Some sample.string_and_code_traits /\
   error_traits Dst = Some (optional_like.error_traits t_string) /\
   is_detailed_error_v Src = true /\
   is_detailed_error_v Dst = false /\
   operator_Dst Src Dst = Accepted convert /\
   indicates_error sample.string_and_code_traits v = true) /\
  convert (mk_error_proxy Src v) = optional_like.make_error t_string.
Proof.
  intros Src Dst convert v.
  split; [repeat split|].
  destruct (proxy_discards_detail Src Dst
              sample.string_and_code_traits (optional_like.error_traits t_string)
              convert eq_refl eq_refl eq_refl eq_refl eq_refl)
    as (make_D & Hm & H & _).
  injection Hm as <-. exact (H v eq_refl).
Defined.

(** C4 (no upgrade).  From a source type that is not DetailedError to a
    DetailedError destination, [operator Dst] is not instantiated: the
    [static_assert] of line 77 refuses it, no conversion function exists,
    and a [try()] with these types is refused as well. *)
Theorem proxy_no_upgrade :
  forall (Src Dst : ty),
    is_detailed_error_v Src = false ->
    is_detailed_error_v Dst = true ->
    operator_Dst Src Dst = Rejected static_assert_is_detailed_error_v /\
    (forall convert, operator_Dst Src Dst <> Accepted convert) /\
    (forall St : Type, exists why, @try_ St Src Dst = Rejected why).
Proof.
  intros Src Dst HS HD.
  assert (Hop : operator_Dst Src Dst = Rejected static_assert_is_detailed_error_v).
  { unfold operator_Dst.
    rewrite (is_detailed_error_v_is_error_v Dst HD), HD, HS. reflexivity. }
  split; [exact Hop|]. split.
  - intros convert H. rewrite Hop in H. discriminate.
  - intros St. unfold try_, error_proxy_ctor, instantiate_traits.
    destruct (is_error_v Src); [|eauto].
    destruct (error_traits Src); simpl; [|eauto].
    rewrite (return_error_proxy_operator Src Dst
               (detailed_holds_no_error_type Dst HD)).
    rewrite Hop. simpl. eauto.
Qed.

Lemma proxy_no_upgrade_witness :
  (is_detailed_error_v (t_optional t_int) = false /\
   is_detailed_error_v sample.int_and_code = true) /\
  operator_Dst (t_optional t_int) sample.int_and_code
  = Rejected static_assert_is_detailed_error_v.
Proof.
  split; [split; reflexivity|].
  exact (proj1 (proxy_no_upgrade (t_optional t_int) sample.int_and_code
                  eq_refl eq_refl)).
Defined.

(** ** The success path *)

(** C5 (pass-through).  When the operand of [try()] evaluates to a value
    [v] of a registered type with [indicates_error v = false], the macro
    yields a value [y] to the surrounding expression and the code after it
    runs on with [y], from the state the operand left.  For an
    ErrorWithValue type [y] is what [extract_value v] returns, and that
    call is defined: the value an optional holds, the first component of
    a pair.  For a type that is DetailedError only the macro yields
    [void]. *)
Theorem try_pass_through :
  forall (St : Type) (Src Dst : ty) (tr : traits Src)
         (macro : body St (val Dst) (val Src) -> body St (val Dst) auto_value)
         (expr : body St (val Dst) (val Src))
         (s s' : St) (v : val Src),
    error_traits Src = Some tr ->
    try_ Src Dst = Accepted macro ->
    expr s = (Yield v, s') ->
    indicates_error tr v = false ->
    exists y : auto_value,
      macro expr s = (Yield y, s') /\
      (forall (B : Type) (rest : auto_value -> body St (val Dst) B),
          (x <- macro expr ;; rest x)%body s = rest y s') /\
      (is_error_with_value_v Src = true ->
       exists (V : ty) (extract : val Src -> undefined_or (val V)) (x : val V),
         extract_value tr = Some (existT _ V extract) /\
         extract v = Defined_ x /\
         y = typed_value V x) /\
      (is_error_with_value_v Src = false ->
       is_detailed_error_v Src = true /\
       extract_value tr = None /\
       y = void_value) /\
      match Src return val Src -> Prop with
      | t_optional A => fun opt =>
          exists x : val A, opt = Some x /\ y = typed_value A x
      | t_pair _ A _ => fun pr => y = typed_value A (fst pr)
      | _ => fun _ => y = void_value
      end v.
Proof.
  intros St Src Dst tr macro expr s s' v Ht Hm He Hv.
  destruct (try_accepted St Src Dst macro Hm)
    as (tr' & convert & extract & Ht' & Herr & _ & Hx & ->).
  assert (tr' = tr) as -> by congruence.
  pose proof (maybe_extract_value_accepted Src tr extract Ht Hx v Hv) as Hy.
  assert (Hshape :
            forall y, extract v = Defined_ y ->
              match Src return val Src -> Prop with
              | t_optional A => fun opt =>
                  exists x : val A, opt = Some x /\ y = typed_value A x
              | t_pair _ A _ => fun pr => y = typed_value A (fst pr)
              | _ => fun _ => y = void_value
              end v).
  { intros y Hext.
    destruct (error_traits_registered Src tr Ht) as [A|T call Hc|P A E call Hc];
      simpl in Hy.
    - destruct Hy as (_ & x & Hdef & Hy). destruct v as [x0|]; [|discriminate Hdef].
      injection Hdef as <-. exists x0. split; [reflexivity|].
      pose proof (eq_trans (eq_sym Hext) Hy) as Hq. injection Hq as ->. reflexivity.
    - destruct Hy as (_ & Hy).
      pose proof (eq_trans (eq_sym Hext) Hy) as Hq. injection Hq as ->.
      destruct (free_indicates_error_types T call Hc) as [-> | ->]; reflexivity.
    - destruct Hy as (_ & x & Hdef & Hy). injection Hdef as <-.
      pose proof (eq_trans (eq_sym Hext) Hy) as Hq. injection Hq as ->. reflexivity. }
  destruct (extract_value tr) as [[V extract_value]|].
  - destruct Hy as (Hewv & x & Hdef & Hy).
    exists (typed_value V x).
    unfold bind, lift. rewrite He, Hv, Hy.
    split; [reflexivity|]. split; [reflexivity|]. split; [|split].
    + intros _. exists V, extract_value, x. repeat split. exact Hdef.
    + congruence.
    + exact (Hshape _ Hy).
  - destruct Hy as (Hewv & Hy).
    exists void_value.
    unfold bind, lift. rewrite He, Hv, Hy.
    split; [reflexivity|]. split; [reflexivity|]. split; [|split].
    + congruence.
    + intros _. split; [|split; reflexivity].
      unfold is_error_v in Herr. rewrite Hewv, orb_false_r in Herr. exact Herr.
    + exact (Hshape _ Hy).
Qed.

Lemma try_pass_through_witness :
  (exists macro,
      (error_traits (t_optional t_string) = Some (optional_like.error_traits t_string) /\
       @try_ nat (t_optional t_string) (t_optional t_string) = Accepted macro /\
       indicates_error (optional_like.error_traits t_string) (Some "ok"%string) = false) /\
      macro (sample.inner (t_optional t_string) (Some "ok"%string)) 0%nat
      = (Yield (typed_value t_string "ok"%string), 1%nat)) /\
  (exists macro,
      (error_traits sample.int_and_code = Some sample.int_and_code_traits /\
       @try_ nat sample.int_and_code sample.int_and_code = Accepted macro /\
       indicates_error sample.int_and_code_traits (3, mk_error_code 0 system_category)
       = false) /\
      macro (sample.inner sample.int_and_code (3, mk_error_code 0 system_category)) 0%nat
      = (Yield (typed_value t_int 3), 1%nat)).
Proof.
  split.
  - destruct (@try_ nat (t_optional t_string) (t_optional t_string))
      as [macro|why] eqn:Hm; [|discriminate Hm].
    exists macro. split; [repeat split|].
    destruct (try_pass_through nat (t_optional t_string) (t_optional t_string)
                (optional_like.error_traits t_string)
                macro (sample.inner (t_optional t_string) (Some "ok"%string))
                0%nat 1%nat (Some "ok"%string) eq_refl Hm eq_refl eq_refl)
      as (y & Hy & _ & _ & _ & x & Hx & ->).
    injection Hx as <-. exact Hy.
  - destruct (@try_ nat sample.int_and_code sample.int_and_code)
      as [macro|why] eqn:Hm; [|discriminate Hm].
    exists macro. split; [repeat split|].
    destruct (try_pass_through nat sample.int_and_code sample.int_and_code
                sample.int_and_code_traits
                macro (sample.inner sample.int_and_code
                         (3, mk_error_code 0 system_category))
                0%nat 1%nat (3, mk_error_code 0 system_category)
                eq_refl Hm eq_refl eq_refl)
      as (y & Hy & _ & _ & _ & ->).
    exact Hy.
Defined.

(** C10 (single evaluation).  An accepted [try()] runs its operand once:
    with the operand's evaluations counted, the counter goes up by one on
    every path and the program state is the one a single evaluation
    leaves.  The value [v] of that evaluation is the one tested with
    [indicates_error], then handed to the proxy and the conversion of the
    [return] statement on failure, and to [maybe_extract_value] on
    success. *)
Theorem try_evaluates_operand_once :
  forall (St : Type) (Src Dst : ty) (tr : traits Src)
         (macro : body (nat * St) (val Dst) (val Src)
                  -> body (nat * St) (val Dst) auto_value)
         (expr : body St (val Dst) (val Src)) (n : nat) (s : St),
    error_traits Src = Some tr ->
    try_ Src Dst = Accepted macro ->
    snd (macro (counted expr) (n, s)) = (S n, snd (expr s)) /\
    exists convert extract,
      return_error_proxy Src Dst = Accepted convert /\
      maybe_extract_value Src = Accepted extract /\
      fst (macro (counted expr) (n, s))
      = match fst (expr s) with
        | Yield v =>
            if indicates_error tr v
            then Return (convert (mk_error_proxy Src v))
            else match extract v with
                 | Defined_ y => Yield y
                 | Undefined_ => Undefined
                 end
        | Return r => Return r
        | Undefined => Undefined
        end.
Proof.
  intros St Src Dst tr macro expr n s Ht Hm.
  destruct (try_accepted (nat * St) Src Dst macro Hm)
    as (tr' & convert & extract & Ht' & _ & Hc & Hx & ->).
  assert (tr' = tr) as -> by congruence.
  split; [|exists convert, extract; split; [exact Hc|]; split; [exact Hx|]];
    unfold bind, counted, return_, lift; simpl;
    destruct (expr s) as [[v|r|] s1]; simpl; try reflexivity;
    destruct (indicates_error tr v); simpl; try reflexivity;
    destruct (extract v); reflexivity.
Qed.

Lemma try_evaluates_operand_once_witness :
  (exists macro,
      (error_traits t_error_code = Some sample.code_traits /\
       @try_ (nat * nat) t_error_code sample.int_and_code = Accepted macro) /\
      macro (counted (sample.inner t_error_code sample.E)) (0%nat, 0%nat)
      = (Return (0, sample.E), (1%nat, 1%nat))) /\
  (exists macro,
      (error_traits t_error_code = Some sample.code_traits /\
       @try_ (nat * nat) t_error_code (t_optional t_error_code) = Accepted macro) /\
      macro (counted (sample.inner t_error_code sample.E)) (0%nat, 0%nat)
      = (Return (Some sample.E), (1%nat, 1%nat))).
Proof.
  split.
  - destruct (@try_ (nat * nat) t_error_code sample.int_and_code)
      as [macro|why] eqn:Hm; [|discriminate Hm].
    exists macro. split; [repeat split|].
    destruct (try_evaluates_operand_once nat t_error_code sample.int_and_code
                sample.code_traits macro
                (sample.inner t_error_code sample.E) 0%nat 0%nat eq_refl Hm)
      as (Hst & convert & extract & Hc & _ & Hout).
    vm_compute in Hc. injection Hc as <-.
    rewrite (surjective_pairing (macro _ _)), Hst, Hout. reflexivity.
  - destruct (@try_ (nat * nat) t_error_code (t_optional t_error_code))
      as [macro|why] eqn:Hm; [|discriminate Hm].
    exists macro. split; [repeat split|].
    destruct (try_evaluates_operand_once nat t_error_code (t_optional t_error_code)
                sample.code_traits macro
                (sample.inner t_error_code sample.E) 0%nat 0%nat eq_refl Hm)
      as (Hst & convert & extract & Hc & _ & Hout).
    vm_compute in Hc. injection Hc as <-.
    rewrite (surjective_pairing (macro _ _)), Hst, Hout. reflexivity.
Defined.

(** ** The adapters *)

(** C9 (totality).  For every value [v] of a registered type,
    [indicates_error v] is one boolean, never both [true] and [false]; it
    is a function of [v] alone.  It is [true] exactly on the empty
    optional, on the code whose value is not zero, and on the pair whose
    second component the free function [indicates_error] reports. *)
Theorem indicates_error_total :
  forall (T : ty) (tr : traits T) (v : val T),
    error_traits T = Some tr ->
    (exists b : bool,
        indicates_error tr v = b /\
        forall b' : bool, indicates_error tr v = b' -> b' = b) /\
    ~ (indicates_error tr v = true /\ indicates_error tr v = false) /\
    match T return traits T -> val T -> Prop with
    | t_optional A => fun tr opt =>
        indicates_error tr opt = true <-> opt = None
    | t_error_code => fun tr ec =>
        indicates_error tr ec = true <-> ec_value ec <> 0
    | t_error_condition => fun tr ec =>
        indicates_error tr ec = true <-> econd_value ec <> 0
    | t_pair Pair A E => fun tr pr =>
        exists call : val E -> bool,
          call_indicates_error E = Some call /\
          indicates_error tr pr = call (snd pr)
    | _ => fun _ _ => True
    end tr v.
Proof.
  intros T tr v Ht. split; [|split].
  - exists (indicates_error tr v). split; [reflexivity|]. intros b' <-. reflexivity.
  - intros [H1 H2]. rewrite H1 in H2. discriminate.
  - destruct (error_traits_registered T tr Ht) as [A|T call Hc|P A E call Hc].
    + destruct v; cbv; split; intros H; congruence.
    + destruct T; simpl in Hc; try discriminate; injection Hc as <-;
        unfold indicates_error, error_code_like.error_traits,
          error_code_like.indicates_error;
        rewrite negb_true_iff, Z.eqb_neq; reflexivity.
    + exists call. split; [exact Hc|reflexivity].
Qed.

Lemma indicates_error_total_witness :
  error_traits sample.int_and_code = Some sample.int_and_code_traits /\
  exists call : error_code -> bool,
    call_indicates_error t_error_code = Some call /\
    indicates_error sample.int_and_code_traits (7, sample.E) = call sample.E.
Proof.
  split; [reflexivity|].
  exact (proj2 (proj2 (indicates_error_total sample.int_and_code
                         sample.int_and_code_traits (7, sample.E) eq_refl))).
Defined.

(** C6, as the code has it.  The [make_error()] of an adapter without
    payload indicates failure.  The [make_error(p)] of an adapter with a
    payload indicates failure exactly when the free function
    [indicates_error] does so on [p] itself: for every set code, and for
    no unset one. *)
Theorem make_error_indicates_error :
  forall (T : ty) (tr : traits T),
    error_traits T = Some tr ->
    match make_error tr with
    | make_error_nullary _ make => indicates_error tr make = true
    | make_error_unary _ E make =>
        exists call : val E -> bool,
          free_indicates_error E = Some call /\
          forall p : val E, indicates_error tr (make p) = call p
    end.
Proof.
  intros T tr Ht.
  destruct (error_traits_registered T tr Ht) as [A|T call Hc|P A E call Hc]; simpl.
  - reflexivity.
  - exists call. split; [exact Hc|reflexivity].
  - exists call. split; [exact Hc|reflexivity].
Qed.

Lemma make_error_indicates_error_witness :
  error_traits sample.int_and_code = Some sample.int_and_code_traits /\
  exists call : error_code -> bool,
    free_indicates_error t_error_code = Some call /\
    forall p : error_code,
      indicates_error sample.int_and_code_traits
        (pair_like.make_error std_tuple t_int t_error_code p) = call p.
Proof.
  split; [reflexivity|].
  exact (make_error_indicates_error sample.int_and_code
           sample.int_and_code_traits eq_refl).
Defined.

(** C6, as stated, fails: the error code-like and the pair-like
    [make_error] applied to the unset code [std::error_code{}] return a
    value that indicates success. *)
Lemma make_error_of_unset_code_is_success :
  (error_traits t_error_code = Some sample.code_traits /\
   make_error sample.code_traits
   = make_error_unary t_error_code t_error_code
       (error_code_like.make_error t_error_code) /\
   indicates_error sample.code_traits
     (error_code_like.make_error t_error_code (mk_error_code 0 system_category))
   = false) /\
  (error_traits sample.int_and_code = Some sample.int_and_code_traits /\
   make_error sample.int_and_code_traits
   = make_error_unary sample.int_and_code t_error_code
       (pair_like.make_error std_tuple t_int t_error_code) /\
   indicates_error sample.int_and_code_traits
     (pair_like.make_error std_tuple t_int t_error_code
        (mk_error_code 0 system_category))
   = false).
Proof. repeat split. Qed.

(** C7 (round trip).  For the error code-like adapter, [extract_error]
    and [make_error] both return the code they are given, so each undoes
    the other. *)
Theorem error_code_like_round_trip :
  forall (T : ty) (tr : traits T),
    has_indicates_error_v T = true ->
    error_traits T = Some tr ->
    exists (make extract : val T -> val T),
      make_error tr = make_error_unary T T make /\
      extract_error tr = Some (existT _ T extract) /\
      forall e : val T,
        extract e = e /\ make e = e /\
        extract (make e) = e /\ make (extract e) = e.
Proof.
  intros T tr Hv Ht. unfold has_indicates_error_v in Hv.
  destruct (free_indicates_error T) as [call|] eqn:Hc; [|discriminate].
  assert (tr = error_code_like.error_traits T call) as ->.
  { destruct (free_indicates_error_types T call Hc) as [-> | ->];
      simpl in Hc, Ht; congruence. }
  exists (error_code_like.make_error T), (error_code_like.extract_error T).
  repeat split.
Qed.

Lemma error_code_like_round_trip_witness :
  (has_indicates_error_v t_error_code = true /\
   error_traits t_error_code = Some sample.code_traits) /\
  exists (make extract : error_code -> error_code),
    make_error sample.code_traits = make_error_unary t_error_code t_error_code make /\
    extract_error sample.code_traits = Some (existT _ t_error_code extract) /\
    forall e : error_code,
      extract e = e /\ make e = e /\ extract (make e) = e /\ make (extract e) = e.
Proof.
  split; [split; reflexivity|].
  exact (error_code_like_round_trip t_error_code sample.code_traits eq_refl eq_refl).
Defined.

(** C8 (pair-like make_error).  The pair-like [make_error(err)] returns
    the value-initialised pair with [err] stored in its second component.
    So a function that returns (int, error code) and applies [try()] to
    an inner call that returned a set error code [E] returns [(0, E)]. *)
Theorem pair_like_make_error :
  (forall (Pair : pair_template) (A E : ty) (tr : traits (t_pair Pair A E)),
      error_traits (t_pair Pair A E) = Some tr ->
      exists make : val E -> val (t_pair Pair A E),
        make_error tr = make_error_unary (t_pair Pair A E) E make /\
        forall err : val E, make err = (value_init A, err)) /\
  (forall (St : Type) (Pair : pair_template)
          (inner : body St (Z * error_code) error_code)
          (rest : auto_value -> body St (Z * error_code) (Z * error_code))
          (s s' : St) (E : error_code),
      ec_value E <> 0 ->
      inner s = (Yield E, s') ->
      exists macro,
        try_ t_error_code (t_pair Pair t_int t_error_code) = Accepted macro /\
        call_function (x <- macro inner ;; rest x)%body s = (Defined_ (0, E), s')).
Proof.
  split.
  - intros Pair A E tr Ht.
    simpl in Ht.
    destruct (detailed_error (error_traits E) && negb (error_with_value (error_traits E)));
      [|discriminate].
    destruct (call_indicates_error E) as [call|]; [|discriminate].
    injection Ht as <-.
    exists (pair_like.make_error Pair A E). split; reflexivity.
  - intros St Pair inner rest s s' E HE Hi.
    destruct (@try_ St t_error_code (t_pair Pair t_int t_error_code))
      as [macro|why] eqn:Hm; [|discriminate Hm].
    exists macro. split; [reflexivity|].
    assert (Hset : indicates_error sample.code_traits E = true).
    { simpl. unfold error_code_like.indicates_error, sample.code_set.
      rewrite negb_true_iff, Z.eqb_neq. exact HE. }
    destruct (try_accepted St _ _ macro Hm)
      as (tr & convert & extract & Ht & _ & Hc & _ & ->).
    simpl in Ht. injection Ht as <-.
    vm_compute in Hc. injection Hc as <-.
    unfold call_function, bind. rewrite Hi.
    change (indicates_error
              (error_code_like.error_traits t_error_code
                 (fun ec : error_code => negb (ec_value ec =? 0))) E)
      with (indicates_error sample.code_traits E).
    rewrite Hset. reflexivity.
Qed.

Lemma pair_like_make_error_witness :
  (error_traits sample.int_and_code = Some sample.int_and_code_traits /\
   ec_value sample.E <> 0 /\
   sample.inner (R := Z * error_code) t_error_code sample.E 0%nat
   = (Yield sample.E, 1%nat)) /\
  exists macro,
    try_ t_error_code sample.int_and_code = Accepted macro /\
    call_function
      (x <- macro (sample.inner t_error_code sample.E) ;;
       sample.rest (7, sample.E) x)%body 0%nat
    = (Defined_ (0, sample.E), 1%nat).
Proof.
  split; [repeat split; discriminate|].
  refine (proj2 pair_like_make_error nat std_tuple
            (sample.inner t_error_code sample.E) (sample.rest (7, sample.E))
            0%nat 1%nat sample.E _ eq_refl).
  discriminate.
Defined.

(** ** Which uses of the macro are accepted *)

(** The spec's scenarios 1 and 3: a failure crossing into a function that
    returns an optional comes out as the empty optional, and the code
    after the macro has not run. *)
Example scenario_optional_from_optional :
  sample.outer (t_optional t_int) (t_optional t_int) None (Some 7)
  = Accepted (Defined_ None, 1%nat).
Proof. reflexivity. Qed.

Example scenario_optional_from_pair :
  sample.outer sample.string_and_code (t_optional t_string)
    ("partial"%string, sample.E) (Some "done"%string)
  = Accepted (Defined_ None, 1%nat).
Proof. reflexivity. Qed.

(** A success lets the outer function run to its own [return]. *)
Example scenario_success :
  sample.outer sample.int_and_code sample.int_and_code
    (3, mk_error_code 0 system_category) (7, mk_error_code 0 system_category)
  = Accepted (Defined_ (7, mk_error_code 0 system_category), 101%nat).
Proof. reflexivity. Qed.

(** The spec's scenario 4: [try()] on an optional inside a function that
    returns a (string, error code) pair is refused, whatever the optional
    holds, since the failure branch would need an upgrade. *)
Example scenario_pair_from_optional :
  forall (v : val (t_optional t_string)) (r : val sample.string_and_code),
    sample.outer (t_optional t_string) sample.string_and_code v r
    = Rejected static_assert_is_detailed_error_v.
Proof. reflexivity. Qed.

(** Error codes and error conditions do not convert into one another. *)
Example scenario_condition_into_code :
  operator_Dst t_error_condition sample.int_and_code = Rejected no_matching_function.
Proof. reflexivity. Qed.

(** In a function that returns an optional over an error type the
    [return] statement selects the optional's converting constructor:
    the result holds the converted failure and is not empty. *)
Example scenario_optional_of_code :
  sample.outer t_error_code (t_optional t_error_code) sample.E None
  = Accepted (Defined_ (Some sample.E), 1%nat) /\
  sample.outer (t_optional t_int) (t_optional (t_optional t_int)) None None
  = Accepted (Defined_ (Some None), 1%nat) /\
  sample.outer (t_optional t_int) (t_optional t_error_code) None None
  = Rejected static_assert_is_detailed_error_v.
Proof. repeat split. Qed.

(** * Further properties *)

(** ** The classifier, shape by shape *)

Lemma is_error_v_registered (T : ty) :
  is_error_v T = true -> exists tr, error_traits T = Some tr.
Proof.
  unfold is_error_v, is_detailed_error_v, is_error_with_value_v.
  destruct (error_traits T) as [tr|]; [eauto | discriminate].
Qed.

Lemma free_indicates_error_has (T : ty) (call : val T -> bool) :
  free_indicates_error T = Some call -> has_indicates_error_v T = true.
Proof. unfold has_indicates_error_v. intros ->. reflexivity. Qed.

(** The [enable_if] condition on the second component of a pair. *)
Lemma detailed_only_iff_free_function (E : ty) :
  is_detailed_error_v E && negb (is_error_with_value_v E) = has_indicates_error_v E.
Proof.
  unfold is_detailed_error_v, is_error_with_value_v.
  destruct (error_traits E) as [tr|] eqn:Ht.
  - destruct (error_traits_registered E tr Ht) as [A'|T call Hc|P A' E' call Hc].
    + reflexivity.
    + rewrite (free_indicates_error_has T call Hc).
      cbn. unfold convertible. destruct (ty_eq_dec T T); [reflexivity|congruence].
    + cbn. rewrite andb_false_r. reflexivity.
  - destruct E; simpl in Ht; try discriminate; reflexivity.
Qed.

(** The selection flags and the classification of a registered type. *)
Lemma registered_flags (T : ty) (tr : traits T) :
  registered T tr ->
  match extract_value tr, extract_error tr with
  | Some _, None =>
      has_optional_semantics_v T = true /\ has_indicates_error_v T = false /\
      pair_like_enabled T = false
  | None, Some _ =>
      has_optional_semantics_v T = false /\ has_indicates_error_v T = true /\
      pair_like_enabled T = false
  | Some _, Some _ =>
      has_optional_semantics_v T = false /\ has_indicates_error_v T = false /\
      pair_like_enabled T = true
  | None, None => False
  end.
Proof.
  intros [A|T' call Hc|P A E call Hc]; simpl.
  - repeat split.
  - destruct (free_indicates_error_types T' call Hc) as [-> | ->]; repeat split.
  - fold (is_detailed_error_v E) (is_error_with_value_v E).
    rewrite detailed_only_iff_free_function.
    rewrite (free_indicates_error_has E call Hc). repeat split.
Qed.

(** X1.  The pair-like specialisation is enabled exactly for the pairs and
    2-tuples whose second component has the free function
    [indicates_error]: a pair over an optional, over another pair or over
    a plain type has no [error_traits] and is no error type. *)
Theorem pair_like_enabled_iff :
  forall (Pair : pair_template) (A E : ty),
    pair_like_enabled (t_pair Pair A E) = has_indicates_error_v E /\
    is_error_v (t_pair Pair A E) = has_indicates_error_v E.
Proof.
  intros Pair A E.
  assert (Hen : pair_like_enabled (t_pair Pair A E) = has_indicates_error_v E)
    by (simpl; apply detailed_only_iff_free_function).
  split; [exact Hen|].
  destruct (error_traits_unambiguous (t_pair Pair A E)) as (_ & _ & _ & Hsel).
  rewrite Hen in Hsel.
  change (has_optional_semantics_v (t_pair Pair A E)
          || has_indicates_error_v (t_pair Pair A E) || has_indicates_error_v E)
    with (has_indicates_error_v E) in Hsel.
  rewrite <- Hsel.
  destruct (error_traits (t_pair Pair A E)) as [tr|] eqn:Ht.
  - exact (proj2 (proj2 (classifier_of_registered _ tr Ht))).
  - unfold is_error_v, is_detailed_error_v, is_error_with_value_v.
    rewrite Ht. reflexivity.
Qed.

(** X2.  What each specialisation makes of its types: optional-like types
    are ErrorWithValue and not DetailedError, types with the free function
    [indicates_error] are DetailedError and not ErrorWithValue, pair-like
    types are both; a type that enables no specialisation is no error
    type. *)
Theorem classifier_by_specialisation :
  forall T : ty,
    (has_optional_semantics_v T = true ->
     is_detailed_error_v T = false /\ is_error_with_value_v T = true) /\
    (has_indicates_error_v T = true ->
     is_detailed_error_v T = true /\ is_error_with_value_v T = false) /\
    (pair_like_enabled T = true ->
     is_detailed_error_v T = true /\ is_error_with_value_v T = true) /\
    (has_optional_semantics_v T || has_indicates_error_v T || pair_like_enabled T
     = false ->
     is_error_v T = false).
Proof.
  intros T.
  destruct (error_traits_unambiguous T) as (_ & _ & _ & Hsel).
  destruct (error_traits T) as [tr|] eqn:Ht.
  - destruct (classifier_of_registered T tr Ht) as (-> & -> & ->).
    pose proof (registered_flags T tr (error_traits_registered T tr Ht)) as Hf.
    destruct (extract_value tr), (extract_error tr);
      try contradiction; destruct Hf as (-> & -> & ->);
      repeat split; intros; discriminate.
  - unfold is_error_v, is_detailed_error_v, is_error_with_value_v. rewrite Ht.
    symmetry in Hsel.
    apply orb_false_elim in Hsel. destruct Hsel as [Hsel Hp].
    apply orb_false_elim in Hsel. destruct Hsel as [Ho Hi].
    rewrite Ho, Hi, Hp. repeat split; intros; discriminate.
Qed.

Lemma classifier_by_specialisation_witness :
  (has_optional_semantics_v (t_optional t_string) = true /\
   has_indicates_error_v t_error_condition = true /\
   pair_like_enabled sample.string_and_code = true /\
   has_optional_semantics_v t_string || has_indicates_error_v t_string
   || pair_like_enabled t_string = false) /\
  (is_detailed_error_v (t_optional t_string) = false /\
   is_error_with_value_v (t_optional t_string) = true) /\
  (is_detailed_error_v t_error_condition = true /\
   is_error_with_value_v t_error_condition = false) /\
  (is_detailed_error_v sample.string_and_code = true /\
   is_error_with_value_v sample.string_and_code = true) /\
  is_error_v t_string = false.
Proof.
  split; [repeat split|].
  split; [exact (proj1 (classifier_by_specialisation (t_optional t_string)) eq_refl)|].
  split; [exact (proj1 (proj2 (classifier_by_specialisation t_error_condition)) eq_refl)|].
  split; [exact (proj1 (proj2 (proj2 (classifier_by_specialisation
                                       sample.string_and_code))) eq_refl)|].
  exact (proj2 (proj2 (proj2 (classifier_by_specialisation t_string))) eq_refl).
Defined.

(** ** The conversion in closed form *)

(** An instantiated [operator Dst] either returns the destination's
    [make_error()], or feeds the source's [extract_error] to the
    destination's [make_error]. *)
Lemma operator_Dst_form (Src Dst : ty) (dst : traits Dst)
      (convert : error_proxy Src -> val Dst) :
  error_traits Dst = Some dst ->
  operator_Dst Src Dst = Accepted convert ->
  match make_error dst with
  | make_error_nullary _ make => convert = fun _ => make
  | make_error_unary _ E make =>
      exists (src : traits Src) (extract : val Src -> val E),
        error_traits Src = Some src /\
        extract_error src = Some (existT _ E extract) /\
        convert = fun proxy => make (extract (value proxy))
  end.
Proof.
  intros Hd.
  destruct (classifier_of_registered Dst dst Hd) as (HD & _ & HeD).
  unfold operator_Dst. rewrite HeD, HD.
  rewrite (instantiate_traits_accepted Dst dst Hd).
  destruct (error_traits_registered Dst dst Hd) as [A|T call Hc|P A E' call Hc]; simpl.
  - intros H. injection H as <-. reflexivity.
  - destruct (is_detailed_error_v Src); [|discriminate].
    unfold instantiate_traits.
    destruct (error_traits Src) as [src|]; simpl; [|discriminate].
    destruct (extract_error src) as [[E extract]|] eqn:Hex; [|discriminate].
    destruct (ty_eq_dec E T) as [same|]; [|discriminate]. subst E.
    intros H. injection H as <-. exists src, extract.
    split; [reflexivity|]. split; [exact Hex|reflexivity].
  - destruct (is_detailed_error_v Src); [|discriminate].
    unfold instantiate_traits.
    destruct (error_traits Src) as [src|]; simpl; [|discriminate].
    destruct (extract_error src) as [[E extract]|] eqn:Hex; [|discriminate].
    destruct (ty_eq_dec E E') as [same|]; [|discriminate]. subst E.
    intros H. injection H as <-. exists src, extract.
    split; [reflexivity|]. split; [exact Hex|reflexivity].
Qed.


(** ** When the macro is accepted *)




(** ** What a conversion gives *)


(** What the macro does with an operand value, by the test it makes. *)
Lemma macro_on_value (St : Type) (Src Dst : ty) (tr : traits Src)
      (macro : body St (val Dst) (val Src) -> body St (val Dst) auto_value)
      (convert : error_proxy Src -> val Dst)
      (expr : body St (val Dst) (val Src)) (s s' : St) (v : val Src) :
  error_traits Src = Some tr ->
  try_ Src Dst = Accepted macro ->
  return_error_proxy Src Dst = Accepted convert ->
  expr s = (Yield v, s') ->
  if indicates_error tr v
  then macro expr s = (Return (convert (mk_error_proxy Src v)), s')
  else exists y, macro expr s = (Yield y, s').
Proof.
  intros Ht Hm Hc He.
  destruct (try_accepted St Src Dst macro Hm)
    as (tr' & convert' & extract & Ht' & _ & Hc' & Hx & ->).
  assert (tr' = tr) as -> by congruence.
  assert (convert' = convert) as -> by congruence.
  unfold bind. rewrite He.
  destruct (indicates_error tr v) eqn:Hv; [reflexivity|].
  pose proof (maybe_extract_value_accepted Src tr extract Ht Hx v Hv) as Hy.
  unfold lift.
  destruct (extract_value tr) as [[V extract_value]|].
  - destruct Hy as (_ & x & _ & ->). eauto.
  - destruct Hy as (_ & ->). eauto.
Qed.

Lemma operator_Dst_registered (Src Dst : ty) (convert : error_proxy Src -> val Dst) :
  operator_Dst Src Dst = Accepted convert ->
  exists dst, error_traits Dst = Some dst.
Proof.
  unfold operator_Dst. destruct (is_error_v Dst) eqn:He; [|discriminate].
  intros _. exact (is_error_v_registered Dst He).
Qed.




(** X7.  For every DetailedError type, [make_error] takes the type that
    [extract_error] returns, and [extract_error(make_error(p))] is [p].
    The other way round only the payload survives: [extract_error] of
    [make_error(extract_error(v))] is [extract_error(v)], while the value
    itself need not be [v] (a pair-like value loses its first
    component). *)
Theorem extract_error_make_error :
  forall (T : ty) (tr : traits T),
    error_traits T = Some tr ->
    is_detailed_error_v T = true ->
    exists (E : ty) (extract : val T -> val E) (make : val E -> val T),
      extract_error tr = Some (existT _ E extract) /\
      make_error tr = make_error_unary T E make /\
      (forall p : val E, extract (make p) = p) /\
      (forall v : val T, extract (make (extract v)) = extract v).
Proof.
  intros T tr Ht HD.
  destruct (classifier_of_registered T tr Ht) as (HD' & _ & _).
  rewrite HD in HD'.
  destruct (error_traits_registered T tr Ht) as [A|T call Hc|P A E call Hc].
  - discriminate.
  - exists T, (error_code_like.extract_error T), (error_code_like.make_error T).
    repeat split.
  - exists E, (pair_like.extract_error P A E), (pair_like.make_error P A E).
    repeat split.
Qed.

Lemma extract_error_make_error_witness :
  (error_traits sample.string_and_code = Some sample.string_and_code_traits /\
   is_detailed_error_v sample.string_and_code = true) /\
  pair_like.extract_error std_pair t_string t_error_code
    (pair_like.make_error std_pair t_string t_error_code sample.E) = sample.E /\
  pair_like.make_error std_pair t_string t_error_code
    (pair_like.extract_error std_pair t_string t_error_code
       ("partial"%string, sample.E))
  <> ("partial"%string, sample.E).
Proof.
  split; [split; reflexivity|].
  destruct (extract_error_make_error sample.string_and_code
              sample.string_and_code_traits eq_refl eq_refl)
    as (E & extract & make & Hex & Hmk & Hround & _).
  injection Hmk as HE Hmake. subst E.
  apply (existT_ty_inj (fun E => val E -> val sample.string_and_code)) in Hmake.
  apply (Some_existT_ty_inj (fun E => val sample.string_and_code -> val E)) in Hex.
  subst extract make.
  split; [exact (Hround sample.E)|discriminate].
Defined.





(** ** Conversions in sequence *)

Lemma operator_Dst_plain (Src Dst : ty) (dst : traits Dst) (make : val Dst) :
  error_traits Dst = Some dst ->
  make_error dst = make_error_nullary Dst make ->
  operator_Dst Src Dst = Accepted (fun _ => make).
Proof.
  intros Hd.
  destruct (classifier_of_registered Dst dst Hd) as (HD & _ & HeD).
  unfold operator_Dst. rewrite HeD, HD.
  rewrite (instantiate_traits_accepted Dst dst Hd).
  destruct (error_traits_registered Dst dst Hd) as [A|T call Hcall|P A E call Hcall];
    simpl; intros Hmk; try discriminate.
  injection Hmk as <-. reflexivity.
Qed.

Lemma registered_detailed_form (T : ty) (tr : traits T) (E : ty)
      (extract : val T -> val E) :
  error_traits T = Some tr ->
  extract_error tr = Some (existT _ E extract) ->
  exists make : val E -> val T,
    make_error tr = make_error_unary T E make /\
    forall p : val E, extract (make p) = p.
Proof.
  intros Ht.
  destruct (error_traits_registered T tr Ht) as [A|T call Hc|P A E' call Hc];
    simpl; intros H; try discriminate; injection H as HE Hex; subst E;
    apply (existT_ty_inj (fun E => _ -> val E)) in Hex; subst extract;
    eexists; split; reflexivity.
Qed.

Lemma operator_Dst_detailed (Src Dst : ty) (src : traits Src) (dst : traits Dst)
      (E : ty) (extract : val Src -> val E) (make : val E -> val Dst) :
  error_traits Src = Some src ->
  error_traits Dst = Some dst ->
  extract_error src = Some (existT _ E extract) ->
  make_error dst = make_error_unary Dst E make ->
  operator_Dst Src Dst = Accepted (fun proxy => make (extract (value proxy))).
Proof.
  intros Hs Hd Hex Hmk.
  destruct (classifier_of_registered Src src Hs) as (HS & _ & _).
  destruct (classifier_of_registered Dst dst Hd) as (HD & _ & HeD).
  rewrite Hex in HS.
  assert (HD' : is_detailed_error_v Dst = true).
  { rewrite HD. destruct (error_traits_registered Dst dst Hd); simpl in *;
      try reflexivity; discriminate. }
  unfold operator_Dst. rewrite HeD, HD', HS.
  rewrite (instantiate_traits_accepted Src src Hs),
          (instantiate_traits_accepted Dst dst Hd). simpl.
  rewrite Hex, Hmk.
  destruct (ty_eq_dec E E) as [same|differ]; [|congruence].
  assert (same = eq_refl) as -> by (apply UIP_dec; exact ty_eq_dec).
  reflexivity.
Qed.

(** X4.  Which payloads [operator Dst] passes on, between registered
    DetailedError types.  It is instantiated when the destination's
    [make_error] takes the type that the source's [extract_error]
    returns.  It is refused, for want of a conversion of the payload, when
    one of the two types is [std::error_code] and the other
    [std::error_condition]. *)
Theorem operator_Dst_payload_types :
  forall (Src Dst : ty) (src : traits Src) (dst : traits Dst)
         (E E' : ty) (extract : val Src -> val E) (make : val E' -> val Dst),
    error_traits Src = Some src ->
    error_traits Dst = Some dst ->
    extract_error src = Some (existT _ E extract) ->
    make_error dst = make_error_unary Dst E' make ->
    (E = E' -> exists convert, operator_Dst Src Dst = Accepted convert) /\
    ((E = t_error_code /\ E' = t_error_condition) \/
     (E = t_error_condition /\ E' = t_error_code) ->
     operator_Dst Src Dst = Rejected no_matching_function).
Proof.
  intros Src Dst src dst E E' extract make Hs Hd Hex Hmk. split.
  - intros HE. subst E'. eexists.
    exact (operator_Dst_detailed Src Dst src dst E extract make Hs Hd Hex Hmk).
  - intros Hdiff.
    destruct (classifier_of_registered Src src Hs) as (HS & _ & _).
    destruct (classifier_of_registered Dst dst Hd) as (HD & _ & HeD).
    rewrite Hex in HS.
    assert (HD' : is_detailed_error_v Dst = true).
    { rewrite HD. destruct (error_traits_registered Dst dst Hd); simpl in *;
        try reflexivity; discriminate. }
    unfold operator_Dst. rewrite HeD, HD', HS.
    rewrite (instantiate_traits_accepted Src src Hs),
            (instantiate_traits_accepted Dst dst Hd). simpl.
    rewrite Hex, Hmk.
    destruct (ty_eq_dec E E') as [same|differ]; [|reflexivity].
    destruct Hdiff as [[-> ->] | [-> ->]]; discriminate same.
Qed.

Lemma operator_Dst_payload_types_witness :
  (error_traits t_error_condition
   = Some (error_code_like.error_traits t_error_condition
             (fun ec => negb (econd_value ec =? 0))) /\
   error_traits sample.int_and_code = Some sample.int_and_code_traits /\
   error_traits sample.string_and_code = Some sample.string_and_code_traits) /\
  operator_Dst t_error_condition sample.int_and_code = Rejected no_matching_function /\
  exists convert,
    operator_Dst sample.string_and_code sample.int_and_code = Accepted convert.
Proof.
  split; [repeat split|]. split.
  - exact (proj2 (operator_Dst_payload_types t_error_condition sample.int_and_code
                    _ sample.int_and_code_traits t_error_condition t_error_code
                    (error_code_like.extract_error t_error_condition)
                    (pair_like.make_error std_tuple t_int t_error_code)
                    eq_refl eq_refl eq_refl eq_refl)
             (or_intror (conj eq_refl eq_refl))).
  - exact (proj1 (operator_Dst_payload_types sample.string_and_code sample.int_and_code
                    sample.string_and_code_traits sample.int_and_code_traits
                    t_error_code t_error_code
                    (pair_like.extract_error std_pair t_string t_error_code)
                    (pair_like.make_error std_tuple t_int t_error_code)
                    eq_refl eq_refl eq_refl eq_refl) eq_refl).
Defined.

(** X10.  Conversions compose: when a failure can be converted from [S]
    to [M] and from [M] to [D], it can be converted from [S] to [D]
    directly, and both ways give the same value.  Propagation through an
    intermediate function loses nothing that the direct conversion
    keeps. *)
Theorem conversion_composes :
  forall (S M D : ty) (convert_SM : error_proxy S -> val M)
         (convert_MD : error_proxy M -> val D),
    operator_Dst S M = Accepted convert_SM ->
    operator_Dst M D = Accepted convert_MD ->
    exists convert_SD : error_proxy S -> val D,
      operator_Dst S D = Accepted convert_SD /\
      forall v : val S,
        convert_SD (mk_error_proxy S v)
        = convert_MD (mk_error_proxy M (convert_SM (mk_error_proxy S v))).
Proof.
  intros S M D convert_SM convert_MD HSM HMD.
  destruct (operator_Dst_registered M D convert_MD HMD) as [d Hd].
  pose proof (operator_Dst_form M D d convert_MD Hd HMD) as HformMD.
  destruct (make_error d) as [make_D|E make_D] eqn:Hmk.
  - subst convert_MD. exists (fun _ => make_D). split; [|reflexivity].
    exact (operator_Dst_plain S D d make_D Hd Hmk).
  - destruct HformMD as (m & extract_M & Hm & HexM & ->).
    destruct (registered_detailed_form M m E extract_M Hm HexM)
      as (make_M & HmkM & Hround).
    pose proof (operator_Dst_form S M m convert_SM Hm HSM) as HformSM.
    rewrite HmkM in HformSM.
    destruct HformSM as (s & extract_S & Hs & HexS & ->).
    exists (fun proxy => make_D (extract_S (value proxy))). split.
    + exact (operator_Dst_detailed S D s d E extract_S make_D Hs Hd HexS Hmk).
    + intros v. simpl. rewrite Hround. reflexivity.
Qed.

Lemma conversion_composes_witness :
  let convert_SM : error_proxy t_error_code -> val sample.string_and_code :=
    fun proxy => (EmptyString, value proxy) in
  let convert_MD : error_proxy sample.string_and_code -> val sample.int_and_code :=
    fun proxy => (0, snd (value proxy)) in
  (operator_Dst t_error_code sample.string_and_code = Accepted convert_SM /\
   operator_Dst sample.string_and_code sample.int_and_code = Accepted convert_MD) /\
  exists convert_SD,
    operator_Dst t_error_code sample.int_and_code = Accepted convert_SD /\
    convert_SD (mk_error_proxy t_error_code sample.E) = (0, sample.E).
Proof.
  intros convert_SM convert_MD. split; [split; reflexivity|].
  destruct (conversion_composes t_error_code sample.string_and_code
              sample.int_and_code convert_SM convert_MD eq_refl eq_refl)
    as (convert_SD & Hc & H).
  exists convert_SD. split; [exact Hc|].
  exact (H sample.E).
Defined.

(** ** Several uses of the macro *)

(** X11.  In the body [try(e1); ...; try(en); return last;] the first
    failure wins: when the operands before [expr] give values that
    indicate success and [expr] gives a value that indicates an error,
    the function returns that value as the [return] statement converts
    it, in the state [expr] left,
    and neither the later operands nor [last] run.  When all operands
    succeed, the function is [last], run after them. *)
Theorem first_failure_wins :
  forall (St : Type) (Src Dst : ty) (tr : traits Src)
         (macro : body St (val Dst) (val Src) -> body St (val Dst) auto_value)
         (convert : error_proxy Src -> val Dst)
         (before : list (body St (val Dst) (val Src)))
         (last : body St (val Dst) (val Dst)) (s s1 : St),
    error_traits Src = Some tr ->
    try_ Src Dst = Accepted macro ->
    return_error_proxy Src Dst = Accepted convert ->
    all_succeed tr before s s1 ->
    try_each macro before last s = last s1 /\
    forall (expr : body St (val Dst) (val Src))
           (after : list (body St (val Dst) (val Src))) (s2 : St) (v : val Src),
      expr s1 = (Yield v, s2) ->
      indicates_error tr v = true ->
      call_function (try_each macro (before ++ expr :: after) last) s
      = (Defined_ (convert (mk_error_proxy Src v)), s2).
Proof.
  intros St Src Dst tr macro convert before last s s1 Ht Hm Hc Hall.
  induction Hall as [s|expr0 exprs s s1 s2 v0 He0 Hv0 Hall IH].
  - split; [reflexivity|].
    intros expr after s2 v He Hv. simpl.
    pose proof (macro_on_value St Src Dst tr macro convert expr s s2 v Ht Hm Hc He)
      as Hstep.
    rewrite Hv in Hstep.
    unfold call_function, bind. rewrite Hstep. reflexivity.
  - pose proof (macro_on_value St Src Dst tr macro convert expr0 s s1 v0 Ht Hm Hc He0)
      as Hstep.
    rewrite Hv0 in Hstep. destruct Hstep as [y Hy].
    destruct IH as [IH1 IH2]. split.
    + simpl. unfold bind. rewrite Hy. exact IH1.
    + intros expr after s3 v He Hv. simpl.
      unfold call_function, bind. rewrite Hy.
      exact (IH2 expr after s3 v He Hv).
Qed.

Lemma first_failure_wins_witness :
  exists macro convert,
    (error_traits t_error_code = Some sample.code_traits /\
     @try_ nat t_error_code sample.int_and_code = Accepted macro /\
     return_error_proxy t_error_code sample.int_and_code = Accepted convert /\
     all_succeed sample.code_traits
       [sample.inner (R := val sample.int_and_code) t_error_code
          (mk_error_code 0 system_category);
        sample.inner t_error_code (mk_error_code 0 generic_category)]
       0%nat 2%nat) /\
    call_function
      (try_each macro
         ([sample.inner t_error_code (mk_error_code 0 system_category);
           sample.inner t_error_code (mk_error_code 0 generic_category)]
          ++ sample.inner t_error_code sample.E
          :: [sample.inner t_error_code (mk_error_code 9 generic_category)])
         (yield (7, mk_error_code 0 system_category)))
      0%nat
    = (Defined_ (convert (mk_error_proxy t_error_code sample.E)), 3%nat).
Proof.
  destruct (@try_ nat t_error_code sample.int_and_code) as [macro|why] eqn:Hm;
    [|discriminate Hm].
  destruct (return_error_proxy t_error_code sample.int_and_code)
    as [convert|why] eqn:Hc;
    [|discriminate Hc].
  exists macro, convert.
  assert (Hall : all_succeed sample.code_traits
            [sample.inner (R := val sample.int_and_code) t_error_code
               (mk_error_code 0 system_category);
             sample.inner t_error_code (mk_error_code 0 generic_category)]
            0%nat 2%nat).
  { eapply all_succeed_cons; [reflexivity|reflexivity|].
    eapply all_succeed_cons; [reflexivity|reflexivity|].
    apply all_succeed_nil. }
  split; [repeat split; exact Hall|].
  exact (proj2 (first_failure_wins nat t_error_code sample.int_and_code
                  sample.code_traits macro convert _
                  (yield (7, mk_error_code 0 system_category)) 0%nat 2%nat
                  eq_refl Hm Hc Hall)
           (sample.inner t_error_code sample.E)
           [sample.inner t_error_code (mk_error_code 9 generic_category)]
           3%nat sample.E eq_refl eq_refl).
Defined.





(** ** Edge values *)

(** X13.  A value-initialised value of a registered type indicates an
    error exactly when the type is optional-like: [std::optional<A>{}] is
    a failure, while [std::error_code{}], [std::error_condition{}] and a
    value-initialised pair are successes. *)
Theorem value_init_indicates_error :
  forall (T : ty) (tr : traits T),
    error_traits T = Some tr ->
    indicates_error tr (value_init T) = has_optional_semantics_v T.
Proof.
  intros T tr Ht.
  destruct (error_traits_registered T tr Ht) as [A|T call Hc|P A E call Hc].
  - reflexivity.
  - destruct (free_indicates_error_types T call Hc) as [-> | ->];
      simpl in Hc; injection Hc as <-; reflexivity.
  - destruct (free_indicates_error_types E call Hc) as [-> | ->];
      simpl in Hc; injection Hc as <-; reflexivity.
Qed.

Lemma value_init_indicates_error_witness :
  error_traits sample.string_and_code = Some sample.string_and_code_traits /\
  indicates_error sample.string_and_code_traits (value_init sample.string_and_code)
  = false.
Proof.
  split; [reflexivity|].
  exact (value_init_indicates_error sample.string_and_code
           sample.string_and_code_traits eq_refl).
Defined.

(** X14.  The macro has no undefined behaviour of its own: an accepted
    [try(expr)] is undefined only where evaluating [expr] is.  In
    particular [*opt] is evaluated on non-empty optionals only. *)
Theorem try_adds_no_undefined_behaviour :
  forall (St : Type) (Src Dst : ty)
         (macro : body St (val Dst) (val Src) -> body St (val Dst) auto_value)
         (expr : body St (val Dst) (val Src)) (s : St),
    try_ Src Dst = Accepted macro ->
    (fst (macro expr s) = Undefined <-> fst (expr s) = Undefined).
Proof.
  intros St Src Dst macro expr s Hm.
  destruct (try_accepted St Src Dst macro Hm)
    as (tr & convert & extract & Ht & _ & _ & Hx & ->).
  unfold bind. destruct (expr s) as [[v|r|] s'] eqn:He; simpl.
  - destruct (indicates_error tr v) eqn:Hv; simpl.
    + split; intros H; discriminate H.
    + pose proof (maybe_extract_value_accepted Src tr extract Ht Hx v Hv) as Hy.
      unfold lift.
      destruct (extract_value tr) as [[V extract_value]|].
      * destruct Hy as (_ & x & _ & ->). simpl. split; intros H; discriminate H.
      * destruct Hy as (_ & ->). simpl. split; intros H; discriminate H.
  - split; intros H; discriminate H.
  - split; reflexivity.
Qed.

Lemma try_adds_no_undefined_behaviour_witness :
  exists macro,
    @try_ nat (t_optional t_string) (t_optional t_int) = Accepted macro /\
    fst (macro (sample.inner (t_optional t_string) None) 0%nat) <> Undefined.
Proof.
  destruct (@try_ nat (t_optional t_string) (t_optional t_int))
    as [macro|why] eqn:Hm; [|discriminate Hm].
  exists macro. split; [reflexivity|].
  intros H.
  apply (proj1 (try_adds_no_undefined_behaviour nat (t_optional t_string)
                  (t_optional t_int) macro
                  (sample.inner (t_optional t_string) None) 0%nat Hm)) in H.
  discriminate H.
Defined.

(** ** One specialisation per type *)

(** X3.  No type enables two partial specialisations of [error_traits],
    so no use of it is ambiguous; and a type is an error type exactly
    when it enables one: the three specialisations are the only way into
    the protocol, and each one selected makes its type an error type. *)
Theorem specialisations_exclusive :
  forall T : ty,
    has_optional_semantics_v T && has_indicates_error_v T = false /\
    has_optional_semantics_v T && pair_like_enabled T = false /\
    has_indicates_error_v T && pair_like_enabled T = false /\
    is_error_v T
    = has_optional_semantics_v T || has_indicates_error_v T || pair_like_enabled T.
Proof.
  intros T.
  destruct (error_traits_unambiguous T) as (H1 & H2 & H3 & Hsel).
  split; [exact H1|]. split; [exact H2|]. split; [exact H3|].
  rewrite <- Hsel.
  destruct (error_traits T) as [tr|] eqn:Ht.
  - exact (proj2 (proj2 (classifier_of_registered T tr Ht))).
  - unfold is_error_v, is_detailed_error_v, is_error_with_value_v.
    rewrite Ht. reflexivity.
Qed.
